(** * mern-library-management: the book API of [backend/index.js]

    A shallow embedding of the five Express routes of [backend/index.js] and
    of the MongoDB collection calls they make, followed by the properties of
    the API.

    The program is a thin adapter: every route builds a filter or a document
    from the request and hands it to one call of the MongoDB driver on the
    collection [books].  The routes are embedded from the source line by
    line; the driver and the server are libraries, embedded here by their
    documented behaviour on the calls the routes make:

    - [new ObjectId(s)] accepts a string of 24 hexadecimal digits and throws
      on any other string;
    - [insertOne] keeps an [_id] the document brings and adds a generated
      ObjectId when it brings none; the server refuses an array as [_id] and
      a second document with an [_id] already stored;
    - an equality filter [{f: v}] selects the documents whose field [f] is
      [v] or is an array with [v] among its elements;
    - [updateOne] with [$set] and [upsert: true] writes the named fields of
      the first selected document, or stores a new document made of the
      equality fields of the filter and the named fields; [_id] cannot be
      changed;
    - [deleteOne] removes the first selected document, [findOne] returns it,
      [find().toArray()] returns all of them in stored order.

    The connection to the server is taken to be up, and documents to be
    ones BSON carries: within the limits of the server (size, nesting),
    with field names free of the NUL character. *)

From Stdlib Require Import Strings.Byte Strings.Ascii Strings.String NArith.NArith QArith.Qcanon.
From stdpp Require Import base decidable option numbers list strings pretty gmap.

Local Open Scope string_scope.
Local Open Scope list_scope.
Set Warnings "-register-all".

(** * Identifiers *)

Module ObjectId.

(** An ObjectId is 12 bytes. *)
Definition t : Type := list byte.

Definition well_formed (o : t) : Prop := length o = 12.

(** Value of a hexadecimal digit, either case ([/^[0-9a-fA-F]{24}$/]). *)
Definition hex_value (c : ascii) : option N :=
  let n := N_of_ascii c in
  if bool_decide (48 ≤ n ≤ 57)%N then Some (n - 48)%N
  else if bool_decide (97 ≤ n ≤ 102)%N then Some (n - 87)%N
  else if bool_decide (65 ≤ n ≤ 70)%N then Some (n - 55)%N
  else None.

(** Lower-case digit of a value below 16. *)
Definition hex_digit (n : N) : ascii :=
  if bool_decide (n < 10)%N then ascii_of_N (48 + n) else ascii_of_N (87 + n).

Fixpoint fromHex (s : string) : option t :=
  match s with
  | EmptyString => Some []
  | String c1 (String c2 s') =>
      hi ← hex_value c1;
      lo ← hex_value c2;
      b ← Byte.of_N (16 * hi + lo);
      rest ← fromHex s';
      Some (b :: rest)
  | String _ EmptyString => None
  end.

(** The string accepted by the constructor: 24 characters, all of them
    hexadecimal digits. *)
Definition parse (s : string) : option t :=
  if bool_decide (String.length s = 24) then fromHex s else None.

Fixpoint toHexString (o : t) : string :=
  match o with
  | [] => EmptyString
  | b :: o' =>
      String (hex_digit (Byte.to_N b / 16))
        (String (hex_digit (Byte.to_N b mod 16)) (toHexString o'))
  end.

End ObjectId.

Global Instance byte_eq_dec : EqDecision byte := Byte.byte_eq_dec.

(** * Documents *)

(** The values of a document: the JSON values a request body can carry, and
    the ObjectId the driver and the server put under [_id].  A number is kept
    by its value; an embedded document keeps its fields in order. *)
Inductive value : Type :=
  | VNull
  | VBool (b : bool)
  | VNum (q : Qc)
  | VStr (s : string)
  | VOid (o : ObjectId.t)
  | VArr (l : list value)
  | VObj (l : list (string * value)).

(** A document, as the routes see it: its top-level fields by name. *)
Abbreviation doc := (gmap string value).

Fixpoint value_eqb (v w : value) {struct v} : bool :=
  match v, w with
  | VNull, VNull => true
  | VBool a, VBool b => bool_decide (a = b)
  | VNum p, VNum q => bool_decide (p = q)
  | VStr s, VStr t => bool_decide (s = t)
  | VOid o, VOid p => bool_decide (o = p)
  | VArr l, VArr m =>
      (fix go (l m : list value) {struct l} : bool :=
         match l, m with
         | [], [] => true
         | x :: l', y :: m' => value_eqb x y && go l' m'
         | _, _ => false
         end) l m
  | VObj l, VObj m =>
      (fix go (l m : list (string * value)) {struct l} : bool :=
         match l, m with
         | [], [] => true
         | (k, x) :: l', (k', y) :: m' =>
             bool_decide (k = k') && value_eqb x y && go l' m'
         | _, _ => false
         end) l m
  | _, _ => false
  end.

Section value_induction.
Variable P : value → Prop.
Hypothesis Hnull : P VNull.
Hypothesis Hbool : ∀ b, P (VBool b).
Hypothesis Hnum : ∀ q, P (VNum q).
Hypothesis Hstr : ∀ s, P (VStr s).
Hypothesis Hoid : ∀ o, P (VOid o).
Hypothesis Harr : ∀ l, Forall P l → P (VArr l).
Hypothesis Hobj : ∀ l, Forall (λ kv, P kv.2) l → P (VObj l).

Fixpoint value_ind_nested (v : value) : P v :=
  match v with
  | VNull => Hnull
  | VBool b => Hbool b
  | VNum q => Hnum q
  | VStr s => Hstr s
  | VOid o => Hoid o
  | VArr l =>
      Harr l ((fix go (l : list value) : Forall P l :=
                 match l with
                 | [] => Forall_nil_2 P
                 | x :: l' => Forall_cons_2 P x l' (value_ind_nested x) (go l')
                 end) l)
  | VObj l =>
      Hobj l ((fix go (l : list (string * value)) : Forall (λ kv, P kv.2) l :=
                 match l with
                 | [] => Forall_nil_2 _
                 | kv :: l' =>
                     Forall_cons_2 (λ kv, P kv.2) kv l' (value_ind_nested kv.2) (go l')
                 end) l)
  end.
End value_induction.

Lemma value_eqb_eq (v w : value) : value_eqb v w = true ↔ v = w.
Proof.
  revert w. induction v as [| | | | |l IH|l IH] using value_ind_nested;
    intros [| | | | |m|m]; simpl; try (split; [done|congruence]);
    try (rewrite bool_decide_eq_true; split; congruence).
  - (* arrays *)
    revert m.
    induction IH as [|x l Hx _ IHl]; intros [|y m]; try (split; [done|congruence]).
    rewrite andb_true_iff, Hx.
    specialize (IHl m). split.
    + intros [-> Hgo]. apply IHl in Hgo. congruence.
    + intros [= -> ->]. split; [done|]. by apply IHl.
  - (* embedded documents *)
    revert m.
    induction IH as [|[k x] l Hx _ IHl]; intros [|[k' y] m];
      try (split; [done|congruence]).
    rewrite !andb_true_iff, bool_decide_eq_true. simpl in Hx. rewrite Hx.
    specialize (IHl m). split.
    + intros [[-> ->] Hgo]. apply IHl in Hgo. congruence.
    + intros [= -> -> ->]. split; [done|]. by apply IHl.
Qed.

Global Instance value_eq_dec : EqDecision value.
Proof.
  refine (λ v w,
    match value_eqb v w as b return value_eqb v w = b → Decision (v = w) with
    | true => λ H, left _
    | false => λ H, right _
    end eq_refl).
  - by apply value_eqb_eq.
  - intros E. apply value_eqb_eq in E. congruence.
Defined.

(** * Outcomes and the state of the deployment *)

(** What a rejected promise carries. *)
Inductive error : Type :=
  | BSONError        (** thrown by [new ObjectId] on a malformed string *)
  | DuplicateKey     (** E11000: the [_id] is already stored *)
  | InvalidIdField   (** the [_id] of a stored document cannot be an array *)
  | ImmutableField.  (** an update would change [_id] *)

(** A call returns, throws, or leaves the part of the server embedded here:
    - an update that names a field by an empty name, a name starting with
      [$] or a name containing [.], which the server reads as an operator
      or a path into embedded documents;
    - a document stored under an embedded document as [_id]. *)
Inductive outcome (A : Type) : Type :=
  | Ok (a : A)
  | Throw (e : error)
  | Unmodelled.
Arguments Ok {A} a.
Arguments Throw {A} e.
Arguments Unmodelled {A}.

(** The calls made on [bookCollections]. *)
Inductive call : Type :=
  | CallInsertOne | CallFind | CallUpdateOne | CallDeleteOne | CallFindOne.

(** The state the routes act on: the collection [books] of the database
    [library-management] in stored order, the calls received by the
    collection so far (latest first), and the generator of ObjectIds: an
    arbitrary sequence, of which [pk_drawn] have been handed out. *)
Record world : Type := World {
  books : list doc;
  calls : list call;
  pk_source : nat → ObjectId.t;
  pk_drawn : nat
}.

Definition M (A : Type) : Type := world → outcome A * world.

Global Instance M_ret : MRet M := λ A a w, (Ok a, w).
Global Instance M_bind : MBind M := λ A B f m w,
  match m w with
  | (Ok a, w') => f a w'
  | (Throw e, w') => (Throw e, w')
  | (Unmodelled, w') => (Unmodelled, w')
  end.

Definition throw {A : Type} (e : error) : M A := λ w, (Throw e, w).
Definition unmodelled {A : Type} : M A := λ w, (Unmodelled, w).
Definition lift {A : Type} (r : outcome A) : M A := λ w, (r, w).

Definition get_books : M (list doc) := λ w, (Ok (books w), w).
Definition put_books (bs : list doc) : M unit := λ w,
  (Ok (), {| books := bs; calls := calls w;
             pk_source := pk_source w; pk_drawn := pk_drawn w |}).
Definition log (c : call) : M unit := λ w,
  (Ok (), {| books := books w; calls := c :: calls w;
             pk_source := pk_source w; pk_drawn := pk_drawn w |}).

(** The next generated ObjectId. *)
Definition next_pk (w : world) : ObjectId.t := pk_source w (pk_drawn w).
Definition createPk : M ObjectId.t := λ w,
  (Ok (next_pk w), {| books := books w; calls := calls w;
                      pk_source := pk_source w; pk_drawn := S (pk_drawn w) |}).

(** * The collection *)

(** The three filters the routes build: [{}], [{ category: c }] and
    [{ _id: o }]. *)
Inductive Filter : Type :=
  | FAll
  | FCategory (c : string)
  | FId (o : ObjectId.t).

(** An equality condition on a field holds when the field has that value,
    or is an array with that value among its elements. *)
Definition field_is (d : doc) (f : string) (v : value) : bool :=
  match d !! f with
  | Some w =>
      bool_decide (w = v)
      || match w with VArr l => bool_decide (v ∈ l) | _ => false end
  | None => false
  end.

Definition matches (q : Filter) (d : doc) : bool :=
  match q with
  | FAll => true
  | FCategory c => field_is d "category" (VStr c)
  | FId o => field_is d "_id" (VOid o)
  end.

(** The equality fields of a filter, from which an upsert starts. *)
Definition seed (q : Filter) : doc :=
  match q with
  | FAll => ∅
  | FCategory c => {[ "category" := VStr c ]}
  | FId o => {[ "_id" := VOid o ]}
  end.

Definition has_id (v : value) (d : doc) : bool := bool_decide (d !! "_id" = Some v).

(** The server stores a new document: it generates the [_id] when the
    document has none, refuses an array, and refuses an [_id] in use. *)
Definition server_insert (d : doc) : M value :=
  id ← match d !! "_id" with
       | Some v => mret v
       | None => pk ← createPk; mret (VOid pk)
       end;
  match id with
  | VArr _ => throw InvalidIdField
  | VObj _ => unmodelled
  | _ =>
      bs ← get_books;
      if existsb (has_id id) bs then throw DuplicateKey
      else put_books (bs ++ [<["_id" := id]> d]);; mret id
  end.

Record InsertOneResult : Type :=
  { ins_acknowledged : bool; insertedId : value }.

(** [insertOne]: the driver first gives the document an [_id] when it has
    none ([doc._id == null]). *)
Definition insertOne (d : doc) : M InsertOneResult :=
  log CallInsertOne;;
  d' ← match d !! "_id" with
       | None | Some VNull => pk ← createPk; mret (<["_id" := VOid pk]> d)
       | Some _ => mret d
       end;
  id ← server_insert d';
  mret {| ins_acknowledged := true; insertedId := id |}.

(** [find(q).toArray()] *)
Definition find (q : Filter) : M (list doc) :=
  log CallFind;;
  bs ← get_books;
  mret (filter (λ d, matches q d) bs).

(** [findOne(q)]: the first selected document, or [null]. *)
Definition findOne (q : Filter) : M (option doc) :=
  log CallFindOne;;
  bs ← get_books;
  mret (snd <$> list_find (λ d, matches q d) bs).

Record DeleteResult : Type :=
  { del_acknowledged : bool; deletedCount : nat }.

Definition deleteOne (q : Filter) : M DeleteResult :=
  log CallDeleteOne;;
  bs ← get_books;
  match list_find (λ d, matches q d) bs with
  | Some (i, _) =>
      put_books (delete i bs);;
      mret {| del_acknowledged := true; deletedCount := 1 |}
  | None => mret {| del_acknowledged := true; deletedCount := 0 |}
  end.

(** The update documents the routes build: [{ $set: fields }]. *)
Inductive Update : Type := USet (fields : doc).

Record UpdateOptions : Type := { upsert : bool }.

Record UpdateResult : Type := {
  upd_acknowledged : bool;
  matchedCount : nat;
  modifiedCount : nat;
  upsertedCount : nat;
  upsertedId : option value
}.

(** A name that [$set] takes as a top-level field name. *)
Definition plain_field (k : string) : bool :=
  match k with
  | EmptyString => false
  | String c _ =>
      negb (bool_decide (c = "$"%char))
      && negb (bool_decide ("."%char ∈ list_ascii_of_string k))
  end.

(** [$set] on a document: the named fields are written, the others are
    kept; writing [_id] is allowed only when it does not change it. *)
Definition apply_update (u : Update) (target : doc) : outcome doc :=
  match u with
  | USet fields =>
      if bool_decide (map_Forall (λ k _, plain_field k) fields) then
        match fields !! "_id", target !! "_id" with
        | Some v, Some t =>
            if bool_decide (v = t) then Ok (fields ∪ target)
            else Throw ImmutableField
        | _, _ => Ok (fields ∪ target)
        end
      else Unmodelled
  end.

Definition updateOne (q : Filter) (u : Update) (options : UpdateOptions)
  : M UpdateResult :=
  log CallUpdateOne;;
  bs ← get_books;
  match list_find (λ d, matches q d) bs with
  | Some (i, d) =>
      d' ← lift (apply_update u d);
      put_books (<[i := d']> bs);;
      mret {| upd_acknowledged := true;
              matchedCount := 1;
              modifiedCount := if bool_decide (d' = d) then 0 else 1;
              upsertedCount := 0;
              upsertedId := None |}
  | None =>
      if upsert options then
        d' ← lift (apply_update u (seed q));
        id ← server_insert d';
        mret {| upd_acknowledged := true;
                matchedCount := 0; modifiedCount := 0;
                upsertedCount := 1; upsertedId := Some id |}
      else
        mret {| upd_acknowledged := true;
                matchedCount := 0; modifiedCount := 0;
                upsertedCount := 0; upsertedId := None |}
  end.

(** * The routes *)

(** What a route reads of a request: [req.params.id], [req.query.category]
    (absent, or the string given) and the parsed JSON object [req.body]. *)
Record request : Type := Request {
  params_id : string;
  query_category : option string;
  body : doc
}.

(** What [res.send] is given. *)
Inductive payload : Type :=
  | PText (s : string)
  | PInsert (r : InsertOneResult)
  | PDocs (l : list doc)
  | PUpdate (r : UpdateResult)
  | PDelete (r : DeleteResult)
  | PDoc (d : option doc).

Definition res_send (p : payload) : M payload := mret p.

(** A string is truthy when it is not empty; [undefined] is falsy. *)
Definition truthy (s : option string) : bool :=
  match s with
  | Some s => negb (bool_decide (s = ""))
  | None => false
  end.

(** [new ObjectId(id)] *)
Definition new_ObjectId (id : string) : M ObjectId.t :=
  match ObjectId.parse id with
  | Some o => mret o
  | None => throw BSONError
  end.

(** [app.get('/')] *)
Definition get_root (req : request) : M payload :=
  res_send (PText "Hello World!").

(** [app.post("/upload-book")] *)
Definition post_upload_book (req : request) : M payload :=
  let data := body req in
  result ← insertOne data;
  res_send (PInsert result).

(** [app.get("/all-books")] *)
Definition get_all_books (req : request) : M payload :=
  let query :=
    match query_category req with
    | Some c => if truthy (Some c) then FCategory c else FAll
    | None => FAll
    end in
  result ← find query;
  res_send (PDocs result).

(** [app.patch("/book/:id")] *)
Definition patch_book (req : request) : M payload :=
  let id := params_id req in
  let updateBookData := body req in
  o ← new_ObjectId id;
  let filter := FId o in
  let updatedDoc := USet updateBookData in
  let options := {| upsert := true |} in
  result ← updateOne filter updatedDoc options;
  res_send (PUpdate result).

(** [app.delete("/book/:id")] *)
Definition delete_book (req : request) : M payload :=
  let id := params_id req in
  o ← new_ObjectId id;
  let filter := FId o in
  result ← deleteOne filter;
  res_send (PDelete result).

(** [app.get("/book/:id")] *)
Definition get_book (req : request) : M payload :=
  let id := params_id req in
  o ← new_ObjectId id;
  let filter := FId o in
  result ← findOne filter;
  res_send (PDoc result).

(** Requests, as a client writes them. *)
Definition POST_upload_book (d : doc) : M payload :=
  post_upload_book {| params_id := ""; query_category := None; body := d |}.
Definition GET_all_books (category : option string) : M payload :=
  get_all_books {| params_id := ""; query_category := category; body := ∅ |}.
Definition PATCH_book (id : string) (d : doc) : M payload :=
  patch_book {| params_id := id; query_category := None; body := d |}.
Definition DELETE_book (id : string) : M payload :=
  delete_book {| params_id := id; query_category := None; body := ∅ |}.
Definition GET_book (id : string) : M payload :=
  get_book {| params_id := id; query_category := None; body := ∅ |}.

(** The text under which a response shows an [_id]: [res.send] writes an
    ObjectId as its 24 hexadecimal digits and a string as itself. *)
Definition id_text (v : value) : option string :=
  match v with
  | VOid o => Some (ObjectId.toHexString o)
  | VStr s => Some s
  | _ => None
  end.

(** * Configuration *)

(** The value of [port]: a string of the environment, or the number 5000. *)
Inductive port_value : Type :=
  | PortEnv (s : string)
  | PortNumber (n : N).

(** [process.env.PORT || 5000] *)
Definition port (env : gmap string string) : port_value :=
  match env !! "PORT" with
  | Some s => if truthy (Some s) then PortEnv s else PortNumber 5000
  | None => PortNumber 5000
  end.

(** [const uri = "mongodb://localhost:27017"]: the environment is not read. *)
Definition uri (env : gmap string string) : string :=
  "mongodb://localhost:27017".

(** The database and the collection of [bookCollections]. *)
Definition database_name : string := "library-management".
Definition collection_name : string := "books".

(** * The stored collection is well formed *)

(** Every stored document has an [_id], no [_id] is an array or an embedded
    document, and no two documents have the same [_id]. *)
Definition ids (bs : list doc) : list (option value) := (λ d : doc, d !! "_id") <$> bs.

Definition storable_id (v : value) : bool :=
  match v with VArr _ | VObj _ => false | _ => true end.

Record wf_books (bs : list doc) : Prop := {
  wf_has_id : Forall (λ d : doc, ∃ v, d !! "_id" = Some v ∧ storable_id v) bs;
  wf_unique : NoDup (ids bs)
}.




(** * Sample data *)

(** A generator that counts: the [n]-th ObjectId is eleven zero bytes and
    the byte [n]. *)
Definition counting_pk (n : nat) : ObjectId.t :=
  replicate 11 x00%byte ++ [default x00%byte (Byte.of_N (N.of_nat n))].

(** The empty deployment. *)
Definition world0 : world :=
  {| books := []; calls := []; pk_source := counting_pk; pk_drawn := 0 |}.

(** The text of the first identifier of the generator. *)
Definition id0 : string := "000000000000000000000000".

Definition dune : doc := {[ "title" := VStr "Dune"; "category" := VStr "scifi" ]}.
Definition dune_stored : doc := <["_id" := VOid (counting_pk 0)]> dune.

(** A book filed under two categories. *)
Definition worlds : doc :=
  {[ "title" := VStr "Worlds";
     "category" := VArr [VStr "scifi"; VStr "classic"] ]}.
Definition worlds_stored : doc := <["_id" := VOid (counting_pk 0)]> worlds.


(** The world a route leaves, and what it answers. *)
Definition after {A : Type} (m : M A) (w : world) : world := (m w).2.
Definition answer {A : Type} (m : M A) (w : world) : outcome A := (m w).1.

(** The deployment after [dune], and after [worlds], was uploaded to the
    empty one. *)
Definition world_dune : world := after (POST_upload_book dune) world0.
Definition world_worlds : world := after (POST_upload_book worlds) world0.

(** * The vocabulary of the properties *)

(** No stored document is selected by [{ _id: o }]. *)
Definition absent (bs : list doc) (o : ObjectId.t) : Prop :=
  Forall (λ d, ¬ matches (FId o) d) bs.


(** The category of [d] is the string [x], or an array with the string [x]
    among its elements. *)
Definition in_category (x : string) (d : doc) : Prop :=
  d !! "category" = Some (VStr x)
  ∨ ∃ l, d !! "category" = Some (VArr l) ∧ VStr x ∈ l.

Global Instance in_category_dec (x : string) (d : doc) : Decision (in_category x d).
Proof.
  unfold in_category.
  destruct (d !! "category") as [v|]; [|right; intros [?|(?&?&?)]; done].
  destruct v as [| | |s| |l|];
    try (right; intros [?|(?&?&?)]; done).
  - destruct (decide (s = x)) as [->|Hne]; [left; by left|].
    right. intros [?|(?&?&?)]; congruence.
  - destruct (decide (VStr x ∈ l)) as [Hin|Hnin]; [left; right; eauto|].
    right. intros [?|(l'&?&?)]; [done|]. congruence.
Defined.

(** The state a request leaves: the stored documents and one more call. *)
Definition called (c : call) (bs : list doc) (w : world) : world :=
  {| books := bs; calls := c :: calls w;
     pk_source := pk_source w; pk_drawn := pk_drawn w |}.

(** * Start-up *)

(** What the deployment answers when the process starts: to
    [client.connect()] and to [command({ ping: 1 })] on the database
    [admin], either success ([None]) or the error of the rejection. *)
Record deployment : Type := Deployment {
  connect_answer : option string;
  ping_answer : option string
}.

Inductive console_line : Type :=
  | ConsoleLog (s : string)
  | ConsoleDir (e : string).

(** The calls made on [client] at start-up. *)
Inductive client_call : Type := ClientConnect | ClientPing | ClientClose.

(** How a run of [run()] ends: the rejection of its promise if any, what it
    wrote on the console, and the calls it made on [client], in order. *)
Record run_result : Type := RunResult {
  run_rejected : option string;
  run_console : list console_line;
  run_calls : list client_call
}.

(** [async function run()]: connect, ping, report; the [finally] block is
    empty ([client.close()] is commented out), so an error leaves [run] as
    it was thrown. *)
Definition run (d : deployment) : run_result :=
  match connect_answer d with
  | Some e =>
      {| run_rejected := Some e; run_console := []; run_calls := [ClientConnect] |}
  | None =>
      match ping_answer d with
      | Some e =>
          {| run_rejected := Some e; run_console := [];
             run_calls := [ClientConnect; ClientPing] |}
      | None =>
          {| run_rejected := None;
             run_console :=
               [ConsoleLog "Pinged your deployment. You successfully connected to MongoDB!"];
             run_calls := [ClientConnect; ClientPing] |}
      end
  end.

(** The text of [port] in a template string. *)
Definition port_text (p : port_value) : string :=
  match p with
  | PortEnv s => s
  | PortNumber n => pretty n
  end.

(** The process after the last lines of the file: [run().catch(console.dir)]
    and [app.listen(port, ...)], which is taken to get its port.  The two
    write on the console at their own time, so their lines are kept
    apart. *)
Record process : Type := Process {
  startup_console : list console_line;
  startup_calls : list client_call;
  listening : port_value;
  listener_console : list console_line
}.

Definition start (env : gmap string string) (d : deployment) : process :=
  let r := run d in
  {| startup_console :=
       run_console r
       ++ match run_rejected r with Some e => [ConsoleDir e] | None => [] end;
     startup_calls := run_calls r;
     listening := port env;
     listener_console :=
       [ConsoleLog ("The backend server is running under port "
                    +:+ port_text (port env))] |}.

(** * Identifiers: what is read is what was written *)

Lemma hex_byte_roundtrip (b : byte) :
  (hi ← ObjectId.hex_value (ObjectId.hex_digit (Byte.to_N b / 16));
   lo ← ObjectId.hex_value (ObjectId.hex_digit (Byte.to_N b mod 16));
   Byte.of_N (16 * hi + lo)) = Some b.
Proof. destruct b; vm_compute; reflexivity. Qed.

Lemma fromHex_toHexString (o : ObjectId.t) :
  ObjectId.fromHex (ObjectId.toHexString o) = Some o.
Proof.
  induction o as [|b o IH]; [done|].
  pose proof (hex_byte_roundtrip b) as Hb.
  cbn [ObjectId.toHexString ObjectId.fromHex].
  destruct (ObjectId.hex_value (ObjectId.hex_digit (Byte.to_N b / 16))) as [hi|];
    [|done].
  cbn [mbind option_bind] in *.
  destruct (ObjectId.hex_value (ObjectId.hex_digit (Byte.to_N b mod 16))) as [lo|];
    [|done].
  cbn [mbind option_bind] in *.
  rewrite Hb. cbn [mbind option_bind]. rewrite IH. done.
Qed.

Lemma length_toHexString (o : ObjectId.t) :
  String.length (ObjectId.toHexString o) = 2 * length o.
Proof. induction o as [|b o IH]; simpl; lia. Qed.

Lemma parse_toHexString (o : ObjectId.t) :
  ObjectId.well_formed o → ObjectId.parse (ObjectId.toHexString o) = Some o.
Proof.
  intros Ho. unfold ObjectId.parse.
  rewrite length_toHexString, Ho. simpl. apply fromHex_toHexString.
Qed.

Lemma fromHex_length (s : string) :
  (∀ o, ObjectId.fromHex s = Some o → String.length s = 2 * length o)
  ∧ (∀ c o, ObjectId.fromHex (String c s) = Some o →
            S (String.length s) = 2 * length o).
Proof.
  induction s as [|a s [IH1 IH2]].
  - split; [by intros o [= <-]|]. intros c o H. simpl in H. discriminate.
  - split; [intros o H; by apply IH2 in H|].
    intros c o H. cbn [ObjectId.fromHex] in H.
    destruct (ObjectId.hex_value c); [|done].
    destruct (ObjectId.hex_value a); [|done].
    cbn [mbind option_bind] in H.
    destruct (Byte.of_N _); [|done].
    cbn [mbind option_bind] in H.
    destruct (ObjectId.fromHex s) as [rest|] eqn:Hs; [|done].
    injection H as <-. specialize (IH1 rest eq_refl). simpl in *. lia.
Qed.

Lemma parse_well_formed (s : string) (o : ObjectId.t) :
  ObjectId.parse s = Some o → ObjectId.well_formed o.
Proof.
  unfold ObjectId.parse, ObjectId.well_formed. case_bool_decide as Hlen; [|done].
  intros H. apply fromHex_length in H. lia.
Qed.

Lemma parse_length (s : string) (o : ObjectId.t) :
  ObjectId.parse s = Some o → String.length s = 24.
Proof. unfold ObjectId.parse. by case_bool_decide. Qed.

(** * Running a route *)

Ltac run_route :=
  unfold answer, after, POST_upload_book, GET_all_books, PATCH_book, DELETE_book,
    GET_book, post_upload_book, get_all_books, patch_book, delete_book,
    get_book, new_ObjectId, insertOne, find, findOne, deleteOne, updateOne,
    res_send, throw, unmodelled, lift, log, get_books, put_books, createPk,
    next_pk;
  unfold mbind, mret, M_bind, M_ret;
  cbn beta iota zeta delta
    [params_id query_category body books calls pk_source pk_drawn fst snd
     upsert].

Ltac run := run_route; unfold server_insert; run_route.

Lemma matches_category (x : string) (d : doc) :
  matches (FCategory x) d ↔ in_category x d.
Proof.
  unfold matches, field_is, in_category.
  destruct (d !! "category") as [v|]; [|split; [done|intros [?|(?&?&?)]; done]].
  rewrite orb_True, bool_decide_spec. split.
  - intros [->|H]; [by left|]. destruct v; try done.
    apply bool_decide_unpack in H. right; eauto.
  - intros [[= ->]|(l & [= ->] & Hin)]; [by left|].
    right. by apply bool_decide_pack.
Qed.

Lemma matches_id (o : ObjectId.t) (d : doc) :
  d !! "_id" = Some (VOid o) → matches (FId o) d.
Proof.
  intros Hd. unfold matches, field_is. rewrite Hd.
  apply orb_True. left. by apply bool_decide_pack.
Qed.

Lemma matches_id_storable (o : ObjectId.t) (d : doc) (v : value) :
  d !! "_id" = Some v → storable_id v → matches (FId o) d → v = VOid o.
Proof.
  intros Hd Hv. unfold matches, field_is. rewrite Hd.
  rewrite orb_True, bool_decide_spec. intros [?|H]; [done|].
  by destruct v.
Qed.

Lemma list_find_absent (bs : list doc) (o : ObjectId.t) :
  absent bs o → list_find (λ d, matches (FId o) d) bs = None.
Proof. intros H. by apply list_find_None. Qed.

Lemma absent_no_id (bs : list doc) (o : ObjectId.t) :
  absent bs o → existsb (has_id (VOid o)) bs = false.
Proof.
  intros H. apply not_true_is_false. intros Hex.
  apply existsb_exists in Hex as (d & Hd & Hid).
  unfold has_id in Hid. apply bool_decide_eq_true in Hid.
  unfold absent in H. rewrite Forall_forall in H.
  apply (H d); [by apply list_elem_of_In|by apply matches_id].
Qed.

(** * Listing *)

Lemma filter_all (bs : list doc) : filter (λ d, matches FAll d) bs = bs.
Proof.
  induction bs as [|d bs IH]; [done|].
  rewrite filter_cons_True by done. by rewrite IH.
Qed.

Lemma list_empty_category (w : world) :
  answer (GET_all_books (Some "")) w = Ok (PDocs (books w)).
Proof. run. simpl. by rewrite filter_all. Qed.

Lemma list_no_category (w : world) :
  answer (GET_all_books None) w = Ok (PDocs (books w)).
Proof. run. simpl. by rewrite filter_all. Qed.

(** C10: [GET /all-books?category=] with an empty value answers as
    [GET /all-books] with no category does, with every stored document: the
    empty string is falsy, so the filter stays [{}].  That is not the list
    of the documents whose category is the empty string: where Dune is
    stored under ["scifi"], Dune is listed and no document has the empty
    category. *)
Theorem empty_category_lists_all (w : world) :
  GET_all_books (Some "") w = GET_all_books None w
  ∧ answer (GET_all_books (Some "")) w = Ok (PDocs (books w))
  ∧ books (after (GET_all_books (Some "")) w) = books w
  ∧ (answer (GET_all_books (Some "")) world_dune = Ok (PDocs [dune_stored])
     ∧ filter (in_category "") (books world_dune) = []).
Proof.
  split; [by run|]. split; [apply list_empty_category|].
  split; [by run|]. vm_compute. by split.
Qed.

(** C2, as the code has it: for a category [x] that is not the empty
    string, [GET /all-books?category=x] answers with the stored documents
    whose category is the string [x] (the very string, case included) or
    an array with [x] among its elements, each once and in stored order;
    with no category, or an empty one, it answers with every stored
    document once.  Nothing is changed in the collection. *)
Theorem list_by_category (w : world) (x : string) :
  x ≠ "" →
  answer (GET_all_books (Some x)) w = Ok (PDocs (filter (in_category x) (books w)))
  ∧ (∀ d, d ∈ filter (in_category x) (books w) ↔ d ∈ books w ∧ in_category x d)
  ∧ answer (GET_all_books None) w = Ok (PDocs (books w))
  ∧ answer (GET_all_books (Some "")) w = Ok (PDocs (books w))
  ∧ books (after (GET_all_books (Some x)) w) = books w
  ∧ books (after (GET_all_books None) w) = books w.
Proof.
  intros Hx. split; [|split; [|split; [|split; [|split]]]].
  - run. unfold truthy. rewrite bool_decide_eq_false_2 by done. simpl.
    f_equal. f_equal. apply list_filter_iff. intros d. apply matches_category.
  - intros d. rewrite list_elem_of_filter. tauto.
  - apply list_no_category.
  - apply list_empty_category.
  - run. by destruct (truthy (Some x)).
  - by run.
Qed.

(** * Malformed and unknown identifiers *)

(** C6: when [:id] is not in the format of an ObjectId, each of
    [GET /book/:id], [PATCH /book/:id] and [DELETE /book/:id] throws in
    [new ObjectId(id)]: the state after the request is the state before
    it, so the collection has received no call and holds the same
    documents. *)
Theorem malformed_id_throws (w : world) (id : string) (b : doc) :
  ObjectId.parse id = None →
  GET_book id w = (Throw BSONError, w)
  ∧ PATCH_book id b w = (Throw BSONError, w)
  ∧ DELETE_book id w = (Throw BSONError, w).
Proof. intros Hid. run. rewrite Hid. by run. Qed.

(** C7: for a well-formed [:id] that selects no stored document,
    [GET /book/:id] does not throw: it sends [null], and leaves the
    collection as it was. *)
Theorem get_unknown_is_null (w : world) (id : string) (o : ObjectId.t) :
  ObjectId.parse id = Some o →
  absent (books w) o →
  answer (GET_book id) w = Ok (PDoc None)
  ∧ books (after (GET_book id) w) = books w.
Proof.
  intros Hid Habs. run. rewrite Hid. run.
  by rewrite list_find_absent.
Qed.

(** * Configuration *)

(** C8: [port] is the variable [PORT] of the environment when it is set
    (to a string that is not empty) and 5000 when it is not set; [uri] is
    the same local address whatever the environment. *)
Theorem port_from_env_uri_fixed (env : gmap string string) (p : string) :
  p ≠ "" →
  port (<["PORT" := p]> env) = PortEnv p
  ∧ port (delete "PORT" env) = PortNumber 5000
  ∧ uri (<["PORT" := p]> env) = "mongodb://localhost:27017"
  ∧ (∀ env', uri env' = uri env).
Proof.
  intros Hp. unfold port, uri, truthy.
  rewrite lookup_insert_eq, lookup_delete_eq.
  by rewrite bool_decide_eq_false_2.
Qed.

(** * Finding the record of an identifier *)

Lemma wf_books_lookup (bs : list doc) (i : nat) (d : doc) :
  wf_books bs → bs !! i = Some d →
  ∃ v, d !! "_id" = Some v ∧ storable_id v.
Proof.
  intros [Hid _] Hi. rewrite Forall_lookup in Hid. by apply (Hid i).
Qed.



(** * Deleting *)


(** * Updating *)

Lemma apply_update_fields (fields target : doc) :
  map_Forall (λ k _, plain_field k) fields →
  fields !! "_id" = None →
  apply_update (USet fields) target = Ok (fields ∪ target).
Proof.
  intros Hplain Hid. unfold apply_update.
  rewrite bool_decide_eq_true_2 by done. by rewrite Hid.
Qed.




Lemma findOne_last (bs : list doc) (o : ObjectId.t) (d : doc) :
  absent bs o → d !! "_id" = Some (VOid o) →
  snd <$> list_find (λ d, matches (FId o) d) (bs ++ [d]) = Some d.
Proof.
  intros Habs Hd. rewrite list_find_app_r by by apply list_find_absent.
  simpl. rewrite decide_True by by apply matches_id. done.
Qed.


(** * Creating *)


(** * The routes keep the collection well formed *)

Lemma wf_books_nil : wf_books [].
Proof. split; [constructor|]. unfold ids. simpl. constructor. Qed.

Lemma wf_books_snoc (bs : list doc) (d : doc) (v : value) :
  wf_books bs → d !! "_id" = Some v → storable_id v →
  existsb (has_id v) bs = false →
  wf_books (bs ++ [d]).
Proof.
  intros [Hid Hnd] Hd Hst Hex. split.
  - apply Forall_app. split; [done|]. apply Forall_singleton. eauto.
  - unfold ids. rewrite fmap_app. apply NoDup_app. split; [done|].
    split; [|apply NoDup_singleton].
    intros x Hx Hx'. simpl in Hx'. apply list_elem_of_singleton in Hx'. subst x.
    apply list_elem_of_fmap in Hx as (d' & Hd' & Hin). rewrite Hd in Hd'.
    assert (existsb (has_id v) bs = true) as Htrue; [|congruence].
    apply existsb_exists. exists d'. split; [by apply list_elem_of_In|].
    unfold has_id. by apply bool_decide_eq_true.
Qed.

Lemma server_insert_wf (d : doc) (w : world) :
  wf_books (books w) → wf_books (books (server_insert d w).2).
Proof.
  intros Hwf. unfold server_insert.
  destruct (d !! "_id") as [v|] eqn:Hd; run.
  - destruct v; run; try done;
      (destruct (existsb _ (books w)) eqn:Hex; run; [done|];
       rewrite insert_id by done;
       by eapply wf_books_snoc).
  - destruct (existsb _ (books w)) eqn:Hex; run; [done|].
    eapply wf_books_snoc; [done|apply lookup_insert_eq|done|done].
Qed.

Lemma apply_update_id (u : Update) (target target' : doc) :
  apply_update u target = Ok target' → target' !! "_id" = target !! "_id"
  ∨ target !! "_id" = None.
Proof.
  destruct u as [fields]. unfold apply_update.
  case_bool_decide; [|done].
  destruct (fields !! "_id") as [v|] eqn:Hf.
  - destruct (target !! "_id") as [t|] eqn:Ht; [|by right].
    case_bool_decide; [|done]. intros [= <-]. left. subst t.
    by apply lookup_union_Some_l.
  - intros Hok. left.
    assert (target' = fields ∪ target) as -> by (destruct (target !! "_id"); congruence).
    by apply lookup_union_r.
Qed.

Lemma update_in_place_wf (bs : list doc) (i : nat) (d d' : doc) :
  wf_books bs → bs !! i = Some d → d' !! "_id" = d !! "_id" →
  wf_books (<[i := d']> bs).
Proof.
  intros Hwf Hi Hid. destruct (wf_books_lookup _ _ _ Hwf Hi) as (v & Hv & Hst).
  destruct Hwf as [Hall Hnd]. split.
  - apply Forall_insert; [done|]. exists v. by rewrite Hid.
  - unfold ids. rewrite list_fmap_insert, Hid.
    rewrite list_insert_id; [done|]. by rewrite list_lookup_fmap, Hi.
Qed.

Lemma delete_wf (bs : list doc) (i : nat) : wf_books bs → wf_books (delete i bs).
Proof.
  intros [Hall Hnd]. split; [by apply Forall_delete|].
  unfold ids. rewrite list_fmap_delete.
  eapply sublist_NoDup; [done|apply sublist_delete].
Qed.

(** Whatever the request and whatever the answer, a route leaves a well
    formed collection well formed. *)
Lemma routes_keep_wf (w : world) (req : request) :
  wf_books (books w) →
  wf_books (books (after (post_upload_book req) w))
  ∧ wf_books (books (after (get_all_books req) w))
  ∧ wf_books (books (after (patch_book req) w))
  ∧ wf_books (books (after (delete_book req) w))
  ∧ wf_books (books (after (get_book req) w)).
Proof.
  intros Hwf. split; [|split; [|split; [|split]]].
  - run_route. destruct (body req !! "_id") as [[]|]; run_route;
      match goal with |- context [server_insert ?d ?w'] =>
        pose proof (server_insert_wf d w' Hwf) as Hs;
        by destruct (server_insert d w') as [[id|e|] w'']
      end.
  - by run_route.
  - run_route. destruct (ObjectId.parse _) as [o|]; [|done]. run_route.
    destruct (list_find _ _) as [[i d]|] eqn:Hfind; run_route.
    + apply list_find_Some in Hfind as (Hi & _ & _).
      destruct (apply_update _ d) as [d'| |] eqn:Hup; run_route; try done.
      apply apply_update_id in Hup as [Hup|Hup].
      * by eapply update_in_place_wf.
      * destruct (wf_books_lookup _ _ _ Hwf Hi) as (v & Hv & _). congruence.
    + destruct (apply_update _ _) as [d'| |]; run_route; try done.
      match goal with |- context [server_insert ?d ?w'] =>
        pose proof (server_insert_wf d w' Hwf) as Hs;
        by destruct (server_insert d w') as [[id|e|] w''] end.
  - run_route. destruct (ObjectId.parse _) as [o|]; [|done]. run_route.
    destruct (list_find _ _) as [[i d]|]; run_route; [|done].
    by apply delete_wf.
  - run_route. by destruct (ObjectId.parse _).
Qed.


(** * The properties on sample requests *)

Lemma books_world_dune : books world_dune = [dune_stored].
Proof. vm_compute. reflexivity. Qed.

Lemma books_world_worlds : books world_worlds = [worlds_stored].
Proof. vm_compute. reflexivity. Qed.

Lemma parse_id0 : ObjectId.parse id0 = Some (counting_pk 0).
Proof. vm_compute. reflexivity. Qed.

Lemma wf_world_dune : wf_books (books world_dune).
Proof. apply (routes_keep_wf world0), wf_books_nil. Qed.




Lemma list_by_category_witness :
  "scifi" ≠ ""
  ∧ answer (GET_all_books (Some "scifi")) world_dune
    = Ok (PDocs (filter (in_category "scifi") (books world_dune)))
  ∧ (∀ d, d ∈ filter (in_category "scifi") (books world_dune)
          ↔ d ∈ books world_dune ∧ in_category "scifi" d)
  ∧ answer (GET_all_books None) world_dune = Ok (PDocs (books world_dune))
  ∧ answer (GET_all_books (Some "")) world_dune = Ok (PDocs (books world_dune))
  ∧ books (after (GET_all_books (Some "scifi")) world_dune) = books world_dune
  ∧ books (after (GET_all_books None) world_dune) = books world_dune.
Proof.
  assert ("scifi" ≠ "") as H by discriminate.
  split; [exact H|]. exact (list_by_category world_dune "scifi" H).
Defined.

(** C2 fails in two ways.  With an empty category every document is
    listed, here one whose category is ["scifi"]; and a category lists a
    document whose category field is not that string but an array that
    has it among its elements. *)
Lemma list_by_category_counterexample :
  (answer (GET_all_books (Some "")) world_dune = Ok (PDocs [dune_stored])
   ∧ dune_stored !! "category" = Some (VStr "scifi"))
  ∧ (answer (GET_all_books (Some "scifi")) world_worlds = Ok (PDocs [worlds_stored])
     ∧ worlds_stored !! "category" = Some (VArr [VStr "scifi"; VStr "classic"])).
Proof. vm_compute. repeat split. Qed.






Lemma malformed_id_throws_witness :
  ObjectId.parse "abc" = None
  ∧ GET_book "abc" world_dune = (Throw BSONError, world_dune)
  ∧ PATCH_book "abc" dune world_dune = (Throw BSONError, world_dune)
  ∧ DELETE_book "abc" world_dune = (Throw BSONError, world_dune).
Proof.
  assert (ObjectId.parse "abc" = None) as H by reflexivity.
  split; [exact H|]. exact (malformed_id_throws world_dune "abc" dune H).
Defined.

Lemma get_unknown_is_null_witness :
  (ObjectId.parse "0000000000000000000000ff" = Some (counting_pk 255)
   ∧ absent (books world_dune) (counting_pk 255))
  ∧ answer (GET_book "0000000000000000000000ff") world_dune = Ok (PDoc None)
  ∧ books (after (GET_book "0000000000000000000000ff") world_dune)
    = books world_dune.
Proof.
  assert (ObjectId.parse "0000000000000000000000ff" = Some (counting_pk 255))
    as Hp by (vm_compute; reflexivity).
  assert (absent (books world_dune) (counting_pk 255)) as Habs.
  { rewrite books_world_dune. apply Forall_singleton. vm_compute. exact id. }
  split; [done|].
  exact (get_unknown_is_null world_dune "0000000000000000000000ff"
           (counting_pk 255) Hp Habs).
Defined.

Lemma port_from_env_uri_fixed_witness :
  "8080" ≠ ""
  ∧ port (<["PORT" := "8080"]> {[ "MONGODB_URI" := "mongodb://db:27017" ]}) = PortEnv "8080"
  ∧ port (delete "PORT" ({[ "MONGODB_URI" := "mongodb://db:27017" ]} : gmap string string))
    = PortNumber 5000
  ∧ uri (<["PORT" := "8080"]> {[ "MONGODB_URI" := "mongodb://db:27017" ]})
    = "mongodb://localhost:27017"
  ∧ (∀ env', uri env' = uri {[ "MONGODB_URI" := "mongodb://db:27017" ]}).
Proof.
  assert ("8080" ≠ "") as H by discriminate.
  split; [exact H|].
  exact (port_from_env_uri_fixed {[ "MONGODB_URI" := "mongodb://db:27017" ]} "8080" H).
Defined.



(** * The scenario of the specification *)

(** Upload Dune as science fiction, find it under its category, move it to
    another category, and delete it. *)
Example scenario :
  let reclassified : doc := {[ "category" := VStr "classic-scifi" ]} in
  let w1 := after (POST_upload_book dune) world0 in
  let w2 := after (PATCH_book id0 reclassified) w1 in
  let w3 := after (DELETE_book id0) w2 in
  answer (POST_upload_book dune) world0
    = Ok (PInsert {| ins_acknowledged := true; insertedId := VOid (counting_pk 0) |})
  ∧ id_text (VOid (counting_pk 0)) = Some id0
  ∧ answer (GET_all_books (Some "scifi")) w1 = Ok (PDocs [dune_stored])
  ∧ answer (GET_all_books (Some "Scifi")) w1 = Ok (PDocs [])
  ∧ answer (GET_all_books (Some "scifi")) w2 = Ok (PDocs [])
  ∧ answer (GET_all_books (Some "classic-scifi")) w2
    = Ok (PDocs [reclassified ∪ dune_stored])
  ∧ answer (DELETE_book id0) w2
    = Ok (PDelete {| del_acknowledged := true; deletedCount := 1 |})
  ∧ answer (GET_book id0) w3 = Ok (PDoc None)
  ∧ calls w3 = [CallDeleteOne; CallUpdateOne; CallInsertOne].
Proof. vm_compute. repeat split. Qed.

(** * What the routes leave alone *)

(** X1: the three reading routes, [GET /], [GET /all-books] and
    [GET /book/:id], never change the stored documents, whatever the
    request and whatever they answer; [GET /] leaves the whole state as
    it is, with no call on the collection. *)
Theorem reading_changes_nothing (w : world) (req : request) :
  get_root req w = (Ok (PText "Hello World!"), w)
  ∧ books (after (get_all_books req) w) = books w
  ∧ books (after (get_book req) w) = books w
  ∧ pk_drawn (after (get_all_books req) w) = pk_drawn w
  ∧ pk_drawn (after (get_book req) w) = pk_drawn w.
Proof.
  split; [done|]. split; [by run|].
  split; [run; by destruct (ObjectId.parse _)|].
  split; [by run|]. run. by destruct (ObjectId.parse _).
Qed.

Lemma server_insert_calls (d : doc) (w : world) :
  calls (server_insert d w).2 = calls w.
Proof.
  unfold server_insert. destruct (d !! "_id") as [v|]; run_route.
  - destruct v; run_route; try done; by destruct (existsb _ _).
  - by destruct (existsb _ _).
Qed.

(** X2: a request makes at most one call on the collection, the one of its
    route: [insertOne] for an upload, [find] for a listing, and for the
    three routes on [/book/:id] the call of the route when [:id] is
    well formed and no call when it is not. *)
Theorem one_call_per_request (w : world) (req : request) :
  calls (after (post_upload_book req) w) = CallInsertOne :: calls w
  ∧ calls (after (get_all_books req) w) = CallFind :: calls w
  ∧ calls (after (patch_book req) w)
    = match ObjectId.parse (params_id req) with
      | Some _ => CallUpdateOne :: calls w
      | None => calls w
      end
  ∧ calls (after (delete_book req) w)
    = match ObjectId.parse (params_id req) with
      | Some _ => CallDeleteOne :: calls w
      | None => calls w
      end
  ∧ calls (after (get_book req) w)
    = match ObjectId.parse (params_id req) with
      | Some _ => CallFindOne :: calls w
      | None => calls w
      end.
Proof.
  split; [|split; [|split; [|split]]].
  - run_route. destruct (body req !! "_id") as [[]|]; run_route;
      match goal with |- context [server_insert ?d ?w'] =>
        pose proof (server_insert_calls d w') as Hs;
        by destruct (server_insert d w') as [[id|e|] w'']
      end.
  - by run.
  - run_route. destruct (ObjectId.parse _) as [o|]; [|done]. run_route.
    destruct (list_find _ _) as [[i d]|]; run_route.
    + by destruct (apply_update _ d).
    + destruct (apply_update _ _) as [d'| |]; run_route; try done.
      match goal with |- context [server_insert ?d ?w'] =>
        pose proof (server_insert_calls d w') as Hs;
        by destruct (server_insert d w') as [[id|e|] w'']
      end.
  - run_route. destruct (ObjectId.parse _) as [o|]; [|done]. run_route.
    by destruct (list_find _ _) as [[i d]|].
  - run_route. by destruct (ObjectId.parse _).
Qed.

(** X3: for a well-formed [:id] that selects no stored document,
    [DELETE /book/:id] does not throw: it reports [deletedCount: 0] and
    the stored documents are the same. *)
Theorem delete_unknown_is_zero (w : world) (id : string) (o : ObjectId.t) :
  ObjectId.parse id = Some o →
  absent (books w) o →
  answer (DELETE_book id) w
    = Ok (PDelete {| del_acknowledged := true; deletedCount := 0 |})
  ∧ books (after (DELETE_book id) w) = books w.
Proof.
  intros Hid Habs. run. rewrite Hid. run.
  by rewrite list_find_absent.
Qed.

Lemma server_insert_appends (d : doc) (w : world) :
  match (server_insert d w).1 with
  | Ok id =>
      books (server_insert d w).2 = books w ++ [<["_id" := id]> d]
      ∧ (d !! "_id" = None ∨ d !! "_id" = Some id)
  | _ => books (server_insert d w).2 = books w
  end.
Proof.
  unfold server_insert. destruct (d !! "_id") as [v|]; run_route.
  - destruct v; run_route; try done;
      (destruct (existsb _ _); run_route; [done|split; [done|by right]]).
  - destruct (existsb _ _); run_route; [done|]. split; [done|by left].
Qed.


(** * Requests one after the other *)

Lemma GET_book_run (w : world) (id : string) (o : ObjectId.t) :
  ObjectId.parse id = Some o →
  GET_book id w
  = (Ok (PDoc (snd <$> list_find (λ d, matches (FId o) d) (books w))),
     called CallFindOne (books w) w).
Proof. intros Hid. run. rewrite Hid. by run. Qed.



Lemma PATCH_book_absent (w : world) (id : string) (o : ObjectId.t) (b : doc) :
  ObjectId.parse id = Some o →
  absent (books w) o →
  map_Forall (λ k _, plain_field k) b →
  b !! "_id" = None →
  PATCH_book id b w
  = (Ok (PUpdate {| upd_acknowledged := true; matchedCount := 0;
                    modifiedCount := 0; upsertedCount := 1;
                    upsertedId := Some (VOid o) |}),
     called CallUpdateOne (books w ++ [b ∪ {[ "_id" := VOid o ]}]) w).
Proof.
  intros Hid Habs Hplain Hb.
  assert ((b ∪ {[ "_id" := VOid o ]} : doc) !! "_id" = Some (VOid o)) as Hd.
  { rewrite lookup_union_r by done. apply lookup_singleton_eq. }
  run. rewrite Hid. run. rewrite list_find_absent by done.
  unfold seed. rewrite apply_update_fields by done. run.
  rewrite Hd. run. rewrite absent_no_id by done. run.
  by rewrite insert_id.
Qed.



Lemma matches_other_id (o o' : ObjectId.t) (d : doc) :
  d !! "_id" = Some (VOid o) → o ≠ o' → ¬ matches (FId o') d.
Proof.
  intros Hd Hne. unfold matches, field_is. rewrite Hd.
  rewrite orb_True, bool_decide_spec. intros [[=]|[]]. done.
Qed.




Lemma insert_snoc {A} (l : list A) (x y : A) :
  <[length l := y]> (l ++ [x]) = l ++ [y].
Proof. induction l as [|z l IH]; [done|]. simpl. by rewrite IH. Qed.





(** X10: [PATCH /book/:id] with an empty body on an unknown [:id] still
    creates a record: a document that has the field [_id], the ObjectId
    of [:id], and no other field. *)
Theorem patch_empty_body_creates (w : world) (id : string) (o : ObjectId.t) :
  ObjectId.parse id = Some o →
  absent (books w) o →
  answer (PATCH_book id ∅) w
    = Ok (PUpdate {| upd_acknowledged := true; matchedCount := 0;
                     modifiedCount := 0; upsertedCount := 1;
                     upsertedId := Some (VOid o) |})
  ∧ books (after (PATCH_book id ∅) w) = books w ++ [{[ "_id" := VOid o ]}]
  ∧ answer (GET_book id) (after (PATCH_book id ∅) w)
    = Ok (PDoc (Some {[ "_id" := VOid o ]})).
Proof.
  intros Hid Habs. unfold answer, after.
  rewrite (PATCH_book_absent w id o ∅); [|done|done|apply map_Forall_empty|done].
  cbn [fst snd called books]. rewrite (left_id_L ∅ (∪)).
  split; [done|]. split; [done|].
  rewrite (GET_book_run _ id o) by done. cbn [fst called books].
  rewrite findOne_last; [done|done|apply lookup_singleton_eq].
Qed.






(** * A request on one record leaves the others to be read *)

Lemma list_find_cons_snd {A} (P : A → Prop) `{∀ x, Decision (P x)} (x : A) (l : list A) :
  snd <$> list_find P (x :: l)
  = if decide (P x) then Some x else snd <$> list_find P l.
Proof. simpl. destruct (decide (P x)); [done|]. by destruct (list_find P l) as [[]|]. Qed.

Lemma find_skip_delete {A} (P : A → Prop) `{∀ x, Decision (P x)}
    (l : list A) (i : nat) (x : A) :
  l !! i = Some x → ¬ P x →
  snd <$> list_find P (delete i l) = snd <$> list_find P l.
Proof.
  revert i. induction l as [|z l IH]; intros [|i] Hi Hx; try done.
  - injection Hi as ->. cbn [delete list_delete].
    by rewrite list_find_cons_snd, decide_False.
  - cbn [delete list_delete]. rewrite !list_find_cons_snd.
    destruct (decide (P z)); [done|]. by apply IH.
Qed.

Lemma find_skip_insert {A} (P : A → Prop) `{∀ x, Decision (P x)}
    (l : list A) (i : nat) (x y : A) :
  l !! i = Some x → ¬ P x → ¬ P y →
  snd <$> list_find P (<[i := y]> l) = snd <$> list_find P l.
Proof.
  revert i. induction l as [|z l IH]; intros [|i] Hi Hx Hy; try done.
  - injection Hi as ->. cbn [insert list_insert].
    by rewrite !list_find_cons_snd, !decide_False.
  - cbn [insert list_insert]. rewrite !list_find_cons_snd.
    destruct (decide (P z)); [done|]. by apply IH.
Qed.

Lemma find_skip_snoc {A} (P : A → Prop) `{∀ x, Decision (P x)} (l : list A) (y : A) :
  ¬ P y → snd <$> list_find P (l ++ [y]) = snd <$> list_find P l.
Proof.
  intros Hy. induction l as [|z l IH].
  - cbn [app]. by rewrite list_find_cons_snd, decide_False.
  - cbn [app]. rewrite !list_find_cons_snd. by destruct (decide (P z)).
Qed.

Lemma patch_keeps_others
    (w : world) (id : string) (o o' : ObjectId.t) (b : doc) :
  wf_books (books w) →
  ObjectId.parse id = Some o →
  o ≠ o' →
  snd <$> list_find (λ d, matches (FId o') d) (books (after (PATCH_book id b) w))
  = snd <$> list_find (λ d, matches (FId o') d) (books w).
Proof.
  intros Hwf Hid Hne. run_route. rewrite Hid. run_route.
  destruct (list_find _ (books w)) as [[i r]|] eqn:Hfind; run_route.
  - apply list_find_Some in Hfind as (Hi & Hm & _).
    destruct (wf_books_lookup _ _ _ Hwf Hi) as (v & Hv & Hst).
    apply (matches_id_storable o r v Hv Hst) in Hm. subst v.
    destruct (apply_update _ r) as [r'| |] eqn:Hup; run_route; try done.
    apply apply_update_id in Hup as [Hup|Hup]; [|congruence].
    apply (find_skip_insert _ _ i r r' Hi);
      apply (matches_other_id o); congruence.
  - destruct (apply_update _ _) as [d'| |] eqn:Hup; run_route; try done.
    apply apply_update_id in Hup as [Hup|Hup]; unfold seed in Hup;
      [|by rewrite lookup_singleton_eq in Hup].
    rewrite lookup_singleton_eq in Hup.
    match goal with |- context [server_insert ?d1 ?w'] =>
      pose proof (server_insert_appends d1 w') as Hs;
      destruct (server_insert d1 w') as [[v|e|] w''] end;
      cbn [fst snd books] in *; try by rewrite Hs.
    destruct Hs as [-> [Hnone|Hsome]]; [congruence|].
    apply find_skip_snoc. apply (matches_other_id o); [|done].
    rewrite lookup_insert_eq. congruence.
Qed.

Lemma delete_keeps_others (w : world) (id : string) (o o' : ObjectId.t) :
  wf_books (books w) →
  ObjectId.parse id = Some o →
  o ≠ o' →
  snd <$> list_find (λ d, matches (FId o') d) (books (after (DELETE_book id) w))
  = snd <$> list_find (λ d, matches (FId o') d) (books w).
Proof.
  intros Hwf Hid Hne. run_route. rewrite Hid. run_route.
  destruct (list_find _ (books w)) as [[i r]|] eqn:Hfind; run_route; [|done].
  apply list_find_Some in Hfind as (Hi & Hm & _).
  destruct (wf_books_lookup _ _ _ Hwf Hi) as (v & Hv & Hst).
  apply (matches_id_storable o r v Hv Hst) in Hm. subst v.
  apply (find_skip_delete _ _ i r Hi). by apply (matches_other_id o).
Qed.

(** X14: a [PATCH /book/:id] of top-level fields, whatever it answers, and
    a [DELETE /book/:id] change nothing in what [GET /book/:id'] sends for
    any other identifier [:id']. *)
Theorem other_records_untouched
    (w : world) (id id' : string) (o o' : ObjectId.t) (b : doc) :
  wf_books (books w) →
  ObjectId.parse id = Some o →
  ObjectId.parse id' = Some o' →
  o ≠ o' →
  map_Forall (λ k _, plain_field k) b →
  answer (GET_book id') (after (PATCH_book id b) w) = answer (GET_book id') w
  ∧ answer (GET_book id') (after (DELETE_book id) w) = answer (GET_book id') w.
Proof.
  intros Hwf Hid Hid' Hne _. unfold answer.
  rewrite !(GET_book_run _ id' o') by done. cbn [fst].
  by rewrite (patch_keeps_others w id o o'), (delete_keeps_others w id o o').
Qed.

(** * Spellings of an identifier *)

(** X15: when [new ObjectId] accepts the text [s] of a path, the
    ObjectId has 12 bytes, its own text (24 lower-case digits, the one
    responses show) is accepted as the same ObjectId, and the three routes
    on [/book/:id] do with that text what they do with [s]. *)
Theorem id_spelling (w : world) (s : string) (o : ObjectId.t) (b : doc) :
  ObjectId.parse s = Some o →
  let t := ObjectId.toHexString o in
  ObjectId.well_formed o
  ∧ ObjectId.parse t = Some o
  ∧ GET_book t w = GET_book s w
  ∧ PATCH_book t b w = PATCH_book s b w
  ∧ DELETE_book t w = DELETE_book s w.
Proof.
  intros Hs t. pose proof (parse_well_formed s o Hs) as Ho.
  assert (ObjectId.parse t = Some o) as Ht by by apply parse_toHexString.
  split; [done|]. split; [done|].
  run_route. by rewrite Hs, Ht.
Qed.

(** * Start-up *)

Ltac members :=
  unfold not; rewrite ?elem_of_cons, ?elem_of_nil; intuition congruence.

(** X16: at start-up the process pings only after a successful connect
    and never closes the client; it writes the success line when connect
    and ping both succeed, and otherwise hands the error of the step that
    failed to [console.dir], so that no rejection is left unhandled; in
    every case it listens, on the [PORT] of the environment if that is a
    string that is not empty and on 5000 if not, and says so. *)
Theorem start_up (env : gmap string string) (d : deployment) :
  let p := start env d in
  (ClientClose ∉ startup_calls p)
  ∧ (ClientPing ∈ startup_calls p ↔ connect_answer d = None)
  ∧ (ConsoleLog "Pinged your deployment. You successfully connected to MongoDB!"
       ∈ startup_console p
     ↔ connect_answer d = None ∧ ping_answer d = None)
  ∧ (∀ e, ConsoleDir e ∈ startup_console p
          ↔ connect_answer d = Some e
            ∨ (connect_answer d = None ∧ ping_answer d = Some e))
  ∧ listening p = port env
  ∧ listener_console p
    = [ConsoleLog ("The backend server is running under port "
                   +:+ match env !! "PORT" with
                       | Some s => if bool_decide (s = "") then "5000" else s
                       | None => "5000"
                       end)].
Proof.
  intros p. subst p. unfold start, run.
  split; [|split; [|split; [|split; [|split]]]].
  - destruct d as [[c|] [g|]]; cbn; members.
  - destruct d as [[c|] [g|]]; cbn; members.
  - destruct d as [[c|] [g|]]; cbn; members.
  - intros e. destruct d as [[c|] [g|]]; cbn; members.
  - done.
  - cbn [listener_console]. unfold port, truthy, port_text.
    destruct (env !! "PORT") as [s|]; [|done]. by case_bool_decide.
Qed.

(** * The further properties on sample requests *)

Lemma parse_idff :
  ObjectId.parse "0000000000000000000000ff" = Some (counting_pk 255).
Proof. vm_compute. reflexivity. Qed.

Lemma absent_world_dune_ff : absent (books world_dune) (counting_pk 255).
Proof. rewrite books_world_dune. apply Forall_singleton. vm_compute. exact id. Qed.

Lemma absent_world0 (o : ObjectId.t) : absent (books world0) o.
Proof. constructor. Qed.

Lemma plain_dune : map_Forall (λ k _, plain_field k) dune.
Proof. apply (bool_decide_unpack _). vm_compute. exact I. Qed.


Lemma delete_unknown_is_zero_witness :
  (ObjectId.parse "0000000000000000000000ff" = Some (counting_pk 255)
   ∧ absent (books world_dune) (counting_pk 255))
  ∧ answer (DELETE_book "0000000000000000000000ff") world_dune
    = Ok (PDelete {| del_acknowledged := true; deletedCount := 0 |})
  ∧ books (after (DELETE_book "0000000000000000000000ff") world_dune)
    = books world_dune.
Proof.
  split; [split; [exact parse_idff|exact absent_world_dune_ff]|].
  exact (delete_unknown_is_zero world_dune "0000000000000000000000ff"
           (counting_pk 255) parse_idff absent_world_dune_ff).
Defined.







Lemma patch_empty_body_creates_witness :
  (ObjectId.parse id0 = Some (counting_pk 0)
   ∧ absent (books world0) (counting_pk 0))
  ∧ answer (PATCH_book id0 ∅) world0
    = Ok (PUpdate {| upd_acknowledged := true; matchedCount := 0;
                     modifiedCount := 0; upsertedCount := 1;
                     upsertedId := Some (VOid (counting_pk 0)) |})
  ∧ books (after (PATCH_book id0 ∅) world0)
    = books world0 ++ [{[ "_id" := VOid (counting_pk 0) ]}]
  ∧ answer (GET_book id0) (after (PATCH_book id0 ∅) world0)
    = Ok (PDoc (Some {[ "_id" := VOid (counting_pk 0) ]})).
Proof.
  split; [by auto using parse_id0, absent_world0|].
  exact (patch_empty_body_creates world0 id0 (counting_pk 0)
           parse_id0 (absent_world0 _)).
Defined.




Lemma other_records_untouched_witness :
  (wf_books (books world_dune)
   ∧ ObjectId.parse "0000000000000000000000ff" = Some (counting_pk 255)
   ∧ ObjectId.parse id0 = Some (counting_pk 0)
   ∧ counting_pk 255 ≠ counting_pk 0
   ∧ map_Forall (λ k _, plain_field k) dune)
  ∧ answer (GET_book id0) (after (PATCH_book "0000000000000000000000ff" dune) world_dune)
    = answer (GET_book id0) world_dune
  ∧ answer (GET_book id0) (after (DELETE_book "0000000000000000000000ff") world_dune)
    = answer (GET_book id0) world_dune.
Proof.
  assert (counting_pk 255 ≠ counting_pk 0) as Hne by (vm_compute; discriminate).
  split; [by auto using wf_world_dune, parse_idff, parse_id0, plain_dune|].
  exact (other_records_untouched world_dune "0000000000000000000000ff" id0
           (counting_pk 255) (counting_pk 0) dune
           wf_world_dune parse_idff parse_id0 Hne plain_dune).
Defined.

Lemma id_spelling_witness :
  ObjectId.parse "0000000000000000000000FF" = Some (counting_pk 255)
  ∧ let t := ObjectId.toHexString (counting_pk 255) in
    ObjectId.well_formed (counting_pk 255)
    ∧ ObjectId.parse t = Some (counting_pk 255)
    ∧ GET_book t world_dune = GET_book "0000000000000000000000FF" world_dune
    ∧ PATCH_book t dune world_dune
      = PATCH_book "0000000000000000000000FF" dune world_dune
    ∧ DELETE_book t world_dune = DELETE_book "0000000000000000000000FF" world_dune.
Proof.
  assert (ObjectId.parse "0000000000000000000000FF" = Some (counting_pk 255))
    as Hs by (vm_compute; reflexivity).
  split; [exact Hs|].
  exact (id_spelling world_dune "0000000000000000000000FF" (counting_pk 255) dune Hs).
Defined.
